(** * A shallow embedding of cbnftfloorprice.py and run_cbnftfloorprice.py

    Python floats are modelled as exact rationals [Q] (rounding is not
    modelled); where the code can produce NaN the value type is [pyfloat]. *)

From Stdlib Require Import List ZArith QArith Qabs Qround Qminmax Sorted Permutation Lia Lqa Bool.
Import ListNotations.

Open Scope Q_scope.

(** ** Python scalars *)

(** A Python float that may be NaN. *)
Inductive pyfloat : Type :=
| Fin (q : Q)
| NaN.

(** Python's builtin [min(a, b)]: keeps [a] unless [b < a]. *)
Definition py_min (a b : Q) : Q := if Qlt_le_dec b a then b else a.

(** Python's builtin [max(a, b)]: keeps [a] unless [b > a]. *)
Definition py_max (a b : Q) : Q := if Qlt_le_dec a b then b else a.

(** ** compute_new_quantile (cbnftfloorprice.py, lines 52-74) *)

Definition compute_new_quantile (q_curr q_target q_obs speed
    pct_target_min pct_target_max : Q) : Q :=
  py_min pct_target_max
    (py_max pct_target_min (q_curr + speed * (q_target - q_obs))).

(** The clamp of the spec, written from its words: the value, pushed up to
    [lo] when below it and down to [hi] when above it. *)
Definition spec_clamp (v lo hi : Q) : Q :=
  if Qlt_le_dec v lo then lo else if Qlt_le_dec hi v then hi else v.

(** ** numpy helpers *)

(** Ascending insertion sort, as [np.sort] / [np.partition] order values. *)
Fixpoint insert_sorted (x : Q) (l : list Q) : list Q :=
  match l with
  | [] => [x]
  | y :: l' => if Qle_bool x y then x :: l else y :: insert_sorted x l'
  end.

Fixpoint sort_q (l : list Q) : list Q :=
  match l with
  | [] => []
  | x :: l' => insert_sorted x (sort_q l')
  end.

(** [np.median]: middle element of the sorted values, or the mean of the two
    middle ones for an even count.  numpy returns NaN on an empty array; that
    value is never compared against here since the filter below then runs
    over no element, so it is represented by [0]. *)
Definition np_median (l : list Q) : Q :=
  let s := sort_q l in
  let n := length l in
  if Nat.even n then
    match n with
    | O => 0
    | _ => (nth (Nat.div2 n - 1) s 0 + nth (Nat.div2 n) s 0) / 2
    end
  else nth (Nat.div2 n) s 0.

(** [scipy.stats.median_abs_deviation] with its defaults (center = np.median,
    scale = 1.0). *)
Definition median_abs_deviation (l : list Q) : Q :=
  let m := np_median l in
  np_median (map (fun x => Qabs (x - m)) l).

(** ** remove_outliers (cbnftfloorprice.py, lines 123-141) *)

Definition remove_outliers (array : list Q) : list Q :=
  let array_median := np_median array in
  let array_mad := median_abs_deviation array in
  let lb := array_median - 3 * array_mad in
  let ub := array_median + 3 * array_mad in
  filter (fun elem => Qle_bool lb elem && Qle_bool elem ub) array.

(** ** compute_quantile (cbnftfloorprice.py, lines 77-88)

    [float(pd.Series(np.array(array)).dropna().quantile(quantile))].  The
    result is [None] when pandas raises (it validates [quantile] first and
    raises [ValueError] outside [0, 1]); otherwise the linear-interpolation
    quantile of the non-NaN values, which pandas returns as NaN when no
    value is left. *)

Fixpoint dropna (l : list pyfloat) : list Q :=
  match l with
  | [] => []
  | Fin q :: l' => q :: dropna l'
  | NaN :: l' => dropna l'
  end.

(** numpy's "linear" method on sorted values [s] of length [n >= 1]:
    virtual index [h = (n-1) * q], interpolation between the order
    statistics at [floor h] and the next one (clipped to the last). *)
Definition linear_quantile (s : list Q) (quantile : Q) : Q :=
  let n := length s in
  let h := (inject_Z (Z.of_nat n) - 1) * quantile in
  let lo := Qfloor h in
  let hi := Z.min (lo + 1) (Z.of_nat n - 1) in
  let a := nth (Z.to_nat lo) s 0 in
  let b := nth (Z.to_nat hi) s 0 in
  a + (b - a) * (h - inject_Z lo).

Definition compute_quantile (array : list pyfloat) (quantile : Q)
    : option pyfloat :=
  if negb (Qle_bool 0 quantile && Qle_bool quantile 1) then None
  else
    match dropna array with
    | [] => Some NaN
    | vs => Some (Fin (linear_quantile (sort_q vs) quantile))
    end.

(** ** Trades *)

Record row : Type := mkRow {
  chain_id : Z;
  contract_address : Z;
  block_number : Z;
  log_price : Q
}.

(** [df.sort_values(col)] with pandas' default [kind="quicksort"]: the
    frame it returns is the input rows reordered ascending by the column.
    numpy's quicksort is not stable, and the order it gives to rows with
    equal keys depends on the input size and the numpy build, so the model
    is the relation: [result] is a permutation of [data] sorted by [key]. *)
Definition sorts_by {A} (key : A -> Z) (data result : list A) : Prop :=
  Permutation data result /\
  Sorted (fun a b => (key a <= key b)%Z) result.

(** One of the orders [sort_values("block_number")] may return: the stable
    one (rows with equal block numbers keep their order).  It is used where
    a result holds whatever order the sort gives to equal block numbers. *)
Fixpoint insert_row (r : row) (l : list row) : list row :=
  match l with
  | [] => [r]
  | r' :: l' =>
      if Z.leb (block_number r) (block_number r') then r :: l
      else r' :: insert_row r l'
  end.

Fixpoint sort_values_block (l : list row) : list row :=
  match l with
  | [] => []
  | r :: l' => insert_row r (sort_values_block l')
  end.

(** [df.iloc[a:b]] for [0 <= a]: the rows at positions [a <= i < b]. *)
Definition iloc_slice {A} (l : list A) (a b : Z) : list A :=
  firstn (Z.to_nat b - Z.to_nat a) (skipn (Z.to_nat a) l).

(** ** create_lookback (cbnftfloorprice.py, lines 8-49) *)

Definition sentinel : Q := -42.

(** One iteration of the loop body: the lookback list of row [idx]. *)
Definition lookback_at (result : list row) (lookback idx : Z) : list Q :=
  if Z.eqb idx 0 then [sentinel]
  else
    let idx_start := Z.max 0 (idx - lookback) in
    map log_price (iloc_slice result idx_start idx).

(** Lines 35-49, run on the frame [result] returned by
    [sort_values("block_number")]: the loop over [range(result.shape[0])],
    appending to [lookback_prices] and [trade_ids]; the rows come back with
    both new columns. *)
Definition create_lookback_sorted (result : list row) (lookback : Z)
    : list (row * list Q * Z) :=
  let '(lookback_prices, trade_ids) :=
    fold_left
      (fun '(lps, tids) (i : nat) =>
         let idx := Z.of_nat i in
         (lps ++ [lookback_at result lookback idx], tids ++ [idx]))
      (seq 0 (length result)) ([], []) in
  combine (combine result lookback_prices) trade_ids.

(** The whole function, with the stable order for equal block numbers. *)
Definition create_lookback (data : list row) (lookback : Z)
    : list (row * list Q * Z) :=
  create_lookback_sorted (sort_values_block data) lookback.

(** The window the spec describes for position [idx]: the sentinel for the
    first trade, else the log prices at positions
    [max(0, idx - lookback) .. idx - 1] of the sorted group. *)
Definition spec_window (sorted : list row) (lookback : Z) (idx : nat)
    : list Q :=
  match idx with
  | O => [sentinel]
  | _ =>
      let start := Z.to_nat (Z.max 0 (Z.of_nat idx - lookback)) in
      map (fun j => log_price (nth j sorted (mkRow 0 0 0 0)))
        (seq start (idx - start))
  end.

(** ** The orchestrator (run_cbnftfloorprice.py, main) *)

Definition LOOKBACK : Z := 140.
Definition BACKTEST : Z := 800.
Definition PCT_TARGET : Q := 5 # 100.
Definition PCT_TARGET_MIN : Q := 2 # 100.
Definition PCT_TARGET_MAX : Q := 1 # 10.
Definition SPEED : Q := 1 # 2.

Definition same_group (r r' : row) : bool :=
  Z.eqb (chain_id r) (chain_id r') &&
  Z.eqb (contract_address r) (contract_address r').

Definition count_if {A} (f : A -> bool) (l : list A) : Z :=
  Z.of_nat (length (filter f l)).

(** [groupby(["chain_id", "contract_address"])["block_number"]
    .rank(method="first", ascending=False)] of the row at position [i] of
    the frame: 1 for the largest block number of the group, ties ranked in
    order of appearance. *)
Definition rank_first_desc (frame : list row) (i : nat) (r : row) : Z :=
  1 + count_if (fun r' => same_group r r' &&
                          Z.ltb (block_number r) (block_number r')) frame
    + count_if (fun r' => same_group r r' &&
                          Z.eqb (block_number r) (block_number r'))
        (firstn i frame).

(** Lines 26-31: keep the rows with [rank < BACKTEST + LOOKBACK * 2]. *)
Definition retain_recent (backtest lookback : Z) (frame : list row)
    : list row :=
  map snd
    (filter (fun '(i, r) => Z.ltb (rank_first_desc frame i r)
                                  (backtest + lookback * 2))
       (combine (seq 0 (length frame)) frame)).

(** Python's [a <= b] on floats, false as soon as one side is NaN. *)
Definition py_le (a : Q) (b : pyfloat) : bool :=
  match b with Fin q => Qle_bool a q | NaN => false end.

Fixpoint all_ok {A B} (f : A -> option B) (l : list A) : option (list B) :=
  match l with
  | [] => Some []
  | x :: l' =>
      match f x, all_ok f l' with
      | Some y, Some ys => Some (y :: ys)
      | _, _ => None
      end
  end.

(** [df.iloc[-n:]] for [n >= 1]. *)
Definition iloc_last {A} (l : list A) (n : Z) : list A :=
  skipn (length l - Z.to_nat n) l.

Definition last_opt {A} (l : list A) : list A :=
  match rev l with [] => [] | x :: _ => [x] end.

(** Lines 33-108 for the rows of one group (already retained and in frame
    order): the records [groupby(...).tail(1)] keeps for the group, each as
    [(quantile_adj, log_price_adj)], or [None] when a call raises.  The
    floor price estimate of a record is [exp log_price_adj]. *)
Definition group_result (g : list row) : option (list (Q * pyfloat)) :=
  let lb := create_lookback g LOOKBACK in
  let bt := iloc_last lb BACKTEST in
  let no_outliers := map (fun '(r, w, _) => (r, remove_outliers w)) bt in
  match all_ok (fun '(r, w) =>
                  match compute_quantile (map Fin w) PCT_TARGET with
                  | Some t => Some (r, w, py_le (log_price r) t)
                  | None => None
                  end) no_outliers with
  | None => None
  | Some rows =>
      let smaller := count_if (fun '(_, _, s) => s) rows in
      let one := Z.of_nat (length rows) in
      let quantile_obs := inject_Z smaller / inject_Z one in
      let quantile_adj :=
        compute_new_quantile PCT_TARGET PCT_TARGET quantile_obs SPEED
          PCT_TARGET_MIN PCT_TARGET_MAX in
      match all_ok (fun '(_, w, _) => compute_quantile (map Fin w) quantile_adj)
              rows with
      | None => None
      | Some adj => Some (map (fun a => (quantile_adj, a)) (last_opt adj))
      end
  end.

Definition frame_of (n : nat) : list row :=
  map (fun i => mkRow 1 1 (Z.of_nat i) 0) (seq 1 n).

(** Lines 20-108 for the rows of one group, in frame order. *)
Definition main_group (g : list row) : option (list (Q * pyfloat)) :=
  group_result (retain_recent BACKTEST LOOKBACK g).

(** Order-preserving subsequences. *)
Inductive subseq {A} : list A -> list A -> Prop :=
| subseq_nil : subseq [] []
| subseq_skip x l l' : subseq l l' -> subseq l (x :: l')
| subseq_take x l l' : subseq l l' -> subseq (x :: l) (x :: l').

(** ** compute_quantile_obs (cbnftfloorprice.py, lines 91-120)

    A row of its input carries the columns the function selects: the trade,
    [log_prices_lookback], [trade_id] and [price_smaller]. *)

Definition obs_row : Type := (row * list Q * Z * bool)%type.

Definition obs_trade_id (r : obs_row) : Z := let '(_, _, t, _) := r in t.
Definition obs_price_smaller (r : obs_row) : bool :=
  let '(_, _, _, s) := r in s.

Definition count_true (l : list bool) : Z := count_if (fun b => b) l.

(** [Series.rolling(window).mean()] on a boolean series, for an integer
    window (min_periods defaults to the window): a negative window raises
    ([None]); a window of 0 gives NaN everywhere; otherwise NaN at the first
    [window - 1] positions, then the mean of the last [window] values, each
    boolean cast to 0 or 1. *)
Definition rolling_mean (window : Z) (xs : list bool) : option (list pyfloat) :=
  if Z.ltb window 0 then None
  else if Z.eqb window 0 then Some (map (fun _ => NaN) xs)
  else
    let w := Z.to_nat window in
    Some (map (fun i =>
                if Z.ltb (Z.of_nat (S i)) window then NaN
                else Fin (inject_Z (count_true
                                      (firstn w (skipn (S i - w) xs)))
                          / inject_Z window))
            (seq 0 (length xs))).

(** Line 119, run on the frame [result] returned by
    [sort_values("trade_id")] (see [sorts_by]): the rows with their new
    [quantile_obs] column. *)
Definition compute_quantile_obs_sorted (result : list obs_row) (backtest : Z)
    : option (list (obs_row * pyfloat)) :=
  match rolling_mean backtest (map obs_price_smaller result) with
  | Some quantile_obs => Some (combine result quantile_obs)
  | None => None
  end.

(** ** Proofs *)

Module Lookback.

Lemma insert_row_head (r : row) (l : list row) :
  HdRel (fun a b => (block_number a <= block_number b)%Z) r l ->
  insert_row r l = r :: l.
Proof.
  intros H. destruct l as [|r' l']; [reflexivity|].
  inversion H; subst. simpl.
  destruct (Z.leb_spec (block_number r) (block_number r')); [reflexivity|lia].
Qed.

Lemma sort_values_block_sorted (l : list row) :
  Sorted (fun a b => (block_number a <= block_number b)%Z) l ->
  sort_values_block l = l.
Proof.
  induction 1 as [|r l Hs IH Hd]; [reflexivity|].
  simpl. rewrite IH. apply insert_row_head; assumption.
Qed.

Lemma length_insert_row (r : row) (l : list row) :
  length (insert_row r l) = S (length l).
Proof.
  induction l as [|r' l IH]; simpl; [reflexivity|].
  destruct (Z.leb _ _); simpl; [reflexivity|now rewrite IH].
Qed.

Lemma length_sort_values_block (l : list row) :
  length (sort_values_block l) = length l.
Proof.
  induction l as [|r l IH]; simpl; [reflexivity|].
  now rewrite length_insert_row, IH.
Qed.

(** The loop appends one window and one id per index. *)
Lemma loop_fold (result : list row) (lookback : Z) (s k : nat)
    (lps : list (list Q)) (tids : list Z) :
  fold_left
    (fun '(lps, tids) (i : nat) =>
       (lps ++ [lookback_at result lookback (Z.of_nat i)],
        tids ++ [Z.of_nat i]))
    (seq s k) (lps, tids) =
  (lps ++ map (fun i => lookback_at result lookback (Z.of_nat i)) (seq s k),
     tids ++ map Z.of_nat (seq s k)).
Proof.
  revert s lps tids.
  induction k as [|k IH]; intros s lps tids; simpl.
  - now rewrite !app_nil_r.
  - rewrite IH. now rewrite <- !app_assoc.
Qed.

Lemma combine_fst {A B} (l1 : list A) (l2 : list B) :
  length l1 = length l2 -> map fst (combine l1 l2) = l1.
Proof.
  revert l2; induction l1 as [|x l1 IH]; intros [|y l2] H;
    simpl in *; try discriminate; [reflexivity|].
  f_equal. apply IH. lia.
Qed.

Lemma combine_snd {A B} (l1 : list A) (l2 : list B) :
  length l1 = length l2 -> map snd (combine l1 l2) = l2.
Proof.
  revert l2; induction l1 as [|x l1 IH]; intros [|y l2] H;
    simpl in *; try discriminate; [reflexivity|].
  f_equal. apply IH. lia.
Qed.

(** The three columns of the loop's output. *)
Lemma create_lookback_sorted_columns (result : list row) (lookback : Z) :
  let out := create_lookback_sorted result lookback in
  map (fun '(r, _, _) => r) out = result /\
  map (fun '(_, w, _) => w) out =
    map (fun i => lookback_at result lookback (Z.of_nat i))
      (seq 0 (length result)) /\
  map (fun '(_, _, t) => t) out = map Z.of_nat (seq 0 (length result)).
Proof.
  cbv zeta. unfold create_lookback_sorted.
  rewrite loop_fold. simpl.
  set (ws := map (fun i => lookback_at result lookback (Z.of_nat i))
               (seq 0 (length result))).
  set (ts := map Z.of_nat (seq 0 (length result))).
  assert (Hw : length result = length ws)
    by (unfold ws; now rewrite length_map, length_seq).
  assert (Ht : length (combine result ws) = length ts)
    by (unfold ts; rewrite length_combine, length_map, length_seq; lia).
  pose proof (combine_fst _ _ Ht) as H1.
  pose proof (combine_snd _ _ Ht) as H2.
  pose proof (combine_fst _ _ Hw) as H3.
  pose proof (combine_snd _ _ Hw) as H4.
  repeat split.
  - rewrite <- H3 at 2. rewrite <- H1 at 2. rewrite map_map.
    apply map_ext. now intros [[r w] t].
  - rewrite <- H4 at 2. rewrite <- H1 at 2. rewrite map_map.
    apply map_ext. now intros [[r w] t].
  - rewrite <- H2 at 2. apply map_ext. now intros [[r w] t].
Qed.

Lemma create_lookback_columns (data : list row) (lookback : Z) :
  let out := create_lookback data lookback in
  let result := sort_values_block data in
  map (fun '(r, _, _) => r) out = result /\
  map (fun '(_, w, _) => w) out =
    map (fun i => lookback_at result lookback (Z.of_nat i))
      (seq 0 (length result)) /\
  map (fun '(_, _, t) => t) out = map Z.of_nat (seq 0 (length result)).
Proof. exact (create_lookback_sorted_columns (sort_values_block data) lookback). Qed.

Lemma skipn_cons_nth {A} (l : list A) (start : nat) (d : A) :
  (start < length l)%nat -> skipn start l = nth start l d :: skipn (S start) l.
Proof.
  revert start; induction l as [|x l IH]; intros start H; simpl in H; [lia|].
  destruct start as [|start]; [reflexivity|].
  simpl. apply IH. lia.
Qed.

Lemma firstn_skipn_seq {A} (l : list A) (start k : nat) (d : A) :
  (start + k <= length l)%nat ->
  firstn k (skipn start l) = map (fun j => nth j l d) (seq start k).
Proof.
  revert start; induction k as [|k IH]; intros start H; [reflexivity|].
  rewrite (skipn_cons_nth l start d) by lia.
  simpl. f_equal. rewrite <- IH by lia.
  reflexivity.
Qed.

(** The loop body at index [i] computes the window the spec describes. *)
Lemma lookback_at_spec (result : list row) (lookback : Z) (i : nat) :
  (i <= length result)%nat ->
  lookback_at result lookback (Z.of_nat i) = spec_window result lookback i.
Proof.
  intros Hi. unfold lookback_at, spec_window.
  destruct i as [|i']; [reflexivity|].
  set (i := S i').
  replace (Z.eqb (Z.of_nat i) 0) with false by (symmetry; apply Z.eqb_neq; lia).
  unfold iloc_slice. rewrite Nat2Z.id.
  set (st := Z.to_nat (Z.max 0 (Z.of_nat i - lookback))).
  destruct (Nat.le_gt_cases st i) as [Hle|Hgt].
  - rewrite (firstn_skipn_seq result st (i - st) (mkRow 0 0 0 0)) by lia.
    now rewrite map_map.
  - replace (i - st)%nat with O by lia. reflexivity.
Qed.

Lemma windows_sorted_spec (result : list row) (lookback : Z) :
  map (fun '(_, w, _) => w) (create_lookback_sorted result lookback) =
  map (spec_window result lookback) (seq 0 (length result)).
Proof.
  destruct (create_lookback_sorted_columns result lookback) as [_ [Hw _]].
  rewrite Hw. apply map_ext_in. intros i Hin. apply in_seq in Hin.
  apply lookback_at_spec. lia.
Qed.

Lemma windows_spec (data : list row) (lookback : Z) :
  map (fun '(_, w, _) => w) (create_lookback data lookback) =
  map (spec_window (sort_values_block data) lookback)
    (seq 0 (length data)).
Proof.
  rewrite <- length_sort_values_block. apply windows_sorted_spec.
Qed.

Lemma length_create_lookback (data : list row) (lookback : Z) :
  length (create_lookback data lookback) = length data.
Proof.
  destruct (create_lookback_columns data lookback) as [Hr _].
  rewrite <- length_sort_values_block, <- Hr. now rewrite length_map.
Qed.

End Lookback.

(** ** create_lookback *)

Definition sorted_by_block (l : list row) : Prop :=
  Sorted (fun a b => (block_number a <= block_number b)%Z) l.

Definition sample_group : list row :=
  map (fun i => mkRow 1 1 i (inject_Z i)) [1; 2; 3; 4]%Z.

Lemma sample_group_sorted : sorted_by_block sample_group.
Proof.
  unfold sorted_by_block, sample_group; simpl.
  repeat (constructor; simpl; try lia).
Qed.

(** A sort result is unique when the keys are distinct. *)
Module SortBy.

Lemma nodup_key_inj {A} (key : A -> Z) (l : list A) (a b : A) :
  NoDup (map key l) -> In a l -> In b l -> key a = key b -> a = b.
Proof.
  induction l as [|x l IH]; intros Hn Ha Hb Hk; [destruct Ha|].
  simpl in Hn. inversion Hn as [|? ? Hx Hn']; subst.
  destruct Ha as [<-|Ha], Hb as [<-|Hb]; [reflexivity| | |now apply IH].
  - exfalso. apply Hx. rewrite Hk. now apply in_map.
  - exfalso. apply Hx. rewrite <- Hk. now apply in_map.
Qed.

Lemma sorted_perm_unique {A} (key : A -> Z) (l1 l2 : list A) :
  Permutation l1 l2 -> NoDup (map key l1) ->
  Sorted (fun a b => (key a <= key b)%Z) l1 ->
  Sorted (fun a b => (key a <= key b)%Z) l2 -> l1 = l2.
Proof.
  revert l2. induction l1 as [|a l1 IH]; intros l2 Hp Hn H1 H2.
  - symmetry. now apply Permutation_nil.
  - destruct l2 as [|b l2]; [now apply Permutation_sym, Permutation_nil in Hp|].
    assert (Ht : Transitive (fun a b : A => (key a <= key b)%Z))
      by (intros x y z; lia).
    apply Sorted_StronglySorted in H1, H2; [|exact Ht|exact Ht].
    inversion H1 as [|? ? H1' F1]; inversion H2 as [|? ? H2' F2]; subst.
    assert (Hab : (key a <= key b)%Z).
    { assert (Hb : In b (a :: l1))
        by (apply (Permutation_in _ (Permutation_sym Hp)); now left).
      destruct Hb as [<-|Hb]; [lia|].
      rewrite Forall_forall in F1. now apply F1. }
    assert (Hba : (key b <= key a)%Z).
    { assert (Ha : In a (b :: l2)) by (apply (Permutation_in _ Hp); now left).
      destruct Ha as [<-|Ha]; [lia|].
      rewrite Forall_forall in F2. now apply F2. }
    assert (E : a = b).
    { apply (nodup_key_inj key (a :: l1)); [exact Hn|now left| |lia].
      apply (Permutation_in _ (Permutation_sym Hp)). now left. }
    subst b. f_equal. apply IH.
    + now apply Permutation_cons_inv in Hp.
    + simpl in Hn. now inversion Hn.
    + now apply StronglySorted_Sorted.
    + now apply StronglySorted_Sorted.
Qed.

(** A list strictly increasing in [key] has distinct keys and is sorted. *)
Lemma strict_sorted {A} (key : A -> Z) (l : list A) :
  Sorted (fun a b => (key a < key b)%Z) l ->
  NoDup (map key l) /\ Sorted (fun a b => (key a <= key b)%Z) l.
Proof.
  intros H.
  assert (Hs : StronglySorted (fun a b => (key a < key b)%Z) l)
    by (apply Sorted_StronglySorted; [intros x y z; lia|exact H]).
  split.
  - clear H. induction Hs as [|x l Hs IH F]; simpl; [constructor|].
    constructor; [|exact IH].
    rewrite in_map_iff. intros [y [Hy Hin]].
    rewrite Forall_forall in F. specialize (F y Hin). lia.
  - clear Hs. induction H as [|x l H IH Hd]; constructor; [exact IH|].
    destruct Hd; constructor; lia.
Qed.

End SortBy.

(** Seventeen rows with the same block number 7, the log price of the row
    at input position [i] being [i], and the order numpy's quicksort returns
    them in: [0, 14, 13, 12, 11, 10, 9, 15, 8, 6, 5, 4, 3, 2, 1, 7, 16]. *)
Definition tied_group : list row :=
  map (fun i => mkRow 1 1 7 (inject_Z (Z.of_nat i))) (seq 0 17).

Definition quicksort_tie_order : list nat :=
  [0; 14; 13; 12; 11; 10; 9; 15; 8; 6; 5; 4; 3; 2; 1; 7; 16]%nat.

Definition tied_result : list row :=
  map (fun k => nth k tied_group (mkRow 0 0 0 0)) quicksort_tie_order.

Lemma tied_result_sorts : sorts_by block_number tied_group tied_result.
Proof.
  split.
  - assert (Hg : tied_group = map (fun k => nth k tied_group (mkRow 0 0 0 0))
                                (seq 0 17)) by reflexivity.
    unfold tied_result. rewrite Hg at 1. apply Permutation_map.
    apply NoDup_Permutation_bis; [apply seq_NoDup|simpl; lia|].
    intros x Hx. apply in_seq in Hx. unfold quicksort_tie_order.
    do 17 (destruct x as [|x]; [simpl; tauto|]). lia.
  - vm_compute. repeat constructor; discriminate.
Qed.

(** C1 (counterexample): [tied_group] is sorted ascending by block number,
    and [tied_result], the order numpy's quicksort gives it, is a sorted
    permutation of it.  The rows then do not come back in input order: with
    [lookback = 2] the trade at input position 1 lands at position 14 with
    the window [[3; 2]], not the log price [[0]] of input position 0. *)
Lemma create_lookback_ties_cex :
  ~ (forall (data result : list row) (lookback : Z),
       sorted_by_block data -> sorts_by block_number data result ->
       (0 <= lookback)%Z ->
       map (fun '(r, _, _) => r) (create_lookback_sorted result lookback)
         = data /\
       map (fun '(_, w, _) => w) (create_lookback_sorted result lookback) =
         map (spec_window data lookback) (seq 0 (length data))).
Proof.
  intros H.
  assert (Hs : sorted_by_block tied_group)
    by (vm_compute; repeat constructor; discriminate).
  destruct (H tied_group tied_result 2%Z Hs tied_result_sorts) as [_ Hw];
    [lia|].
  apply (f_equal (fun l => nth 14 l [])) in Hw.
  vm_compute in Hw. discriminate.
Qed.

(** C1 (amended): whatever order the sort gives to equal block numbers,
    create_lookback returns the frame [result] that
    [sort_values("block_number")] produced (the rows reordered ascending by
    block number) and gives the row at 0-based position [idx] of that frame
    the [trade_id] [idx] and the window [spec_window]: the sentinel
    singleton [-42.0] for [idx = 0], and the log prices at positions
    [max(0, idx - lookback) .. idx - 1] of the frame (oldest first, the row
    itself excluded) for [idx > 0].  When the input's block numbers strictly
    increase, that frame is the input itself, so the positions are the
    input's. *)
Theorem create_lookback_windows (data result : list row) (lookback : Z) :
  sorts_by block_number data result ->
  let out := create_lookback_sorted result lookback in
  map (fun '(r, _, _) => r) out = result /\
  map (fun '(_, w, _) => w) out =
    map (spec_window result lookback) (seq 0 (length data)) /\
  map (fun '(_, _, t) => t) out = map Z.of_nat (seq 0 (length data)) /\
  (Sorted (fun a b => (block_number a < block_number b)%Z) data ->
   result = data).
Proof.
  intros [Hp Hs]. cbv zeta.
  assert (Hl : length data = length result) by now apply Permutation_length.
  destruct (Lookback.create_lookback_sorted_columns result lookback)
    as [Hr [_ Ht]].
  rewrite Hl. split; [exact Hr|]. split; [apply Lookback.windows_sorted_spec|].
  split; [exact Ht|].
  intros Hlt. destruct (SortBy.strict_sorted block_number data Hlt) as [Hn Hd].
  symmetry. now apply (SortBy.sorted_perm_unique block_number).
Qed.

Lemma create_lookback_windows_witness :
  sorts_by block_number sample_group sample_group /\
  map (fun '(_, w, _) => w) (create_lookback_sorted sample_group 2) =
    [[sentinel]; [1]; [1; 2]; [2; 3]].
Proof.
  assert (H : sorts_by block_number sample_group sample_group)
    by (split; [reflexivity|exact sample_group_sorted]).
  split; [exact H|].
  destruct (create_lookback_windows sample_group sample_group 2 H)
    as [_ [Hw _]].
  rewrite Hw. vm_compute. reflexivity.
Defined.

(** C6 (counterexample): with [lookback = 0] the first trade's sentinel
    window has length 1 > lookback. *)
Lemma create_lookback_window_length_cex :
  ~ Forall (fun '(_, w, _) => (Z.of_nat (length w) <= 0)%Z)
      (create_lookback [mkRow 1 1 1 0] 0).
Proof.
  intros H.
  assert (E : create_lookback [mkRow 1 1 1 0] 0 =
              [(mkRow 1 1 1 0, [sentinel], 0%Z)]) by reflexivity.
  rewrite E in H. apply Forall_inv in H. simpl in H. lia.
Qed.

(** C6 (amended): create_lookback gives exactly one window per trade; the
    first (lowest block) trade's window is the sentinel singleton [-42.0];
    every later window has length at most [lookback] (for [lookback >= 0]). *)
Theorem create_lookback_window_lengths (data : list row) (lookback : Z) :
  (0 <= lookback)%Z ->
  length (create_lookback data lookback) = length data /\
  match create_lookback data lookback with
  | [] => data = []
  | (_, w, _) :: rest =>
      w = [sentinel] /\
      Forall (fun '(_, w', _) => (Z.of_nat (length w') <= lookback)%Z) rest
  end.
Proof.
  intros Hlb.
  pose proof (Lookback.length_create_lookback data lookback) as Hlen.
  pose proof (Lookback.windows_spec data lookback) as Hw.
  split; [exact Hlen|].
  destruct (create_lookback data lookback) as [|[[r w] t] rest] eqn:E.
  - simpl in Hlen. now destruct data.
  - destruct data as [|d0 data']; [discriminate|].
    simpl in Hw. injection Hw as Hw0 Hrest.
    split; [exact Hw0|].
    apply Forall_forall. intros [[r' w'] t'] Hin.
    assert (Hin' : In w' (map (fun '(_, w, _) => w) rest))
      by (apply in_map_iff; now exists (r', w', t')).
    rewrite Hrest in Hin'. apply in_map_iff in Hin'.
    destruct Hin' as [i [Hi Hseq]]. apply in_seq in Hseq.
    subst w'. destruct i as [|i]; [lia|].
    unfold spec_window. rewrite length_map, length_seq.
    set (m := Z.max 0 (Z.of_nat (S i) - lookback)).
    assert (Hm : (0 <= m)%Z) by apply Z.le_max_l.
    assert (Hm' : (Z.of_nat (S i) - lookback <= m)%Z) by apply Z.le_max_r.
    pose proof (Z2Nat.id m Hm). lia.
Qed.

Lemma create_lookback_window_lengths_witness :
  (0 <= 2)%Z /\ length (create_lookback sample_group 2) = 4%nat.
Proof.
  split; [lia|].
  destruct (create_lookback_window_lengths sample_group 2) as [H _]; [lia|].
  exact H.
Defined.

(** ** remove_outliers *)

Lemma filter_subseq {A} (f : A -> bool) (l : list A) : subseq (filter f l) l.
Proof.
  induction l as [|x l IH]; simpl; [constructor|].
  destruct (f x); constructor; exact IH.
Qed.

Lemma remove_outliers_subseq (xs : list Q) : subseq (remove_outliers xs) xs.
Proof. apply filter_subseq. Qed.

Lemma np_median_single (x : Q) : np_median [x] = x.
Proof. reflexivity. Qed.

(** C3: remove_outliers keeps, in order, exactly the input values [x] with
    [median - 3*MAD <= x <= median + 3*MAD] (inclusive bounds, MAD the
    unscaled median of [|x_i - median|]); when MAD is 0 exactly the values
    equal to the median survive; a single-element input comes back
    unchanged. *)
Theorem remove_outliers_spec (xs : list Q) :
  let m := np_median xs in
  let d := np_median (map (fun x => Qabs (x - m)) xs) in
  remove_outliers xs =
    filter (fun x => Qle_bool (m - 3 * d) x && Qle_bool x (m + 3 * d)) xs /\
  (forall y, In y (remove_outliers xs) <->
             In y xs /\ m - 3 * d <= y /\ y <= m + 3 * d) /\
  (d == 0 -> remove_outliers xs = filter (fun x => Qeq_bool x m) xs) /\
  (forall x : Q, remove_outliers [x] = [x]).
Proof.
  cbv zeta.
  assert (Hdef : remove_outliers xs =
    filter (fun x => Qle_bool (np_median xs - 3 * np_median
                        (map (fun x => Qabs (x - np_median xs)) xs)) x &&
                     Qle_bool x (np_median xs + 3 * np_median
                        (map (fun x => Qabs (x - np_median xs)) xs))) xs)
    by reflexivity.
  split; [exact Hdef|]. split; [|split].
  - intros y. rewrite Hdef, filter_In, andb_true_iff, !Qle_bool_iff.
    tauto.
  - intros Hd. rewrite Hdef. apply filter_ext. intros x.
    apply eq_iff_eq_true. rewrite andb_true_iff, !Qle_bool_iff, Qeq_bool_iff.
    rewrite Hd. split.
    + intros [H1 H2]. lra.
    + intros H. lra.
  - intros x. unfold remove_outliers, median_abs_deviation.
    cbn [map]. rewrite !np_median_single. cbn [filter].
    assert (Hx : Qabs (x - x) == 0)
      by (rewrite Qabs_pos; lra).
    assert (E1 : Qle_bool (x - 3 * Qabs (x - x)) x = true)
      by (apply Qle_bool_iff; rewrite Hx; lra).
    assert (E2 : Qle_bool x (x + 3 * Qabs (x - x)) = true)
      by (apply Qle_bool_iff; rewrite Hx; lra).
    now rewrite E1, E2.
Qed.

Lemma remove_outliers_spec_witness :
  remove_outliers [1; 1; 1; 5] = [1; 1; 1] /\ remove_outliers [7] = [7].
Proof.
  destruct (remove_outliers_spec [1; 1; 1; 5]) as [_ [_ [Hd Hs]]].
  split; [|apply Hs].
  rewrite Hd by (vm_compute; reflexivity). vm_compute. reflexivity.
Defined.

(** C4 (counterexample): remove_outliers is not idempotent: on [0;0;1;3]
    the first pass keeps [0;0;1] and the second pass drops the 1. *)
Lemma remove_outliers_not_idempotent :
  remove_outliers (remove_outliers [0; 0; 1; 3]) <> remove_outliers [0; 0; 1; 3].
Proof. vm_compute. discriminate. Qed.

(** C4 (amended): applying remove_outliers to its own output returns an
    order-preserving subsequence of that output, possibly a strictly shorter
    one. *)
Theorem remove_outliers_twice_subseq (xs : list Q) :
  subseq (remove_outliers (remove_outliers xs)) (remove_outliers xs).
Proof. apply remove_outliers_subseq. Qed.

(** ** compute_new_quantile *)

(** Case split on the comparisons of [py_min] and [py_max], innermost
    first. *)
Ltac py_cases :=
  unfold py_min, py_max;
  repeat match goal with
         | |- context [Qlt_le_dec ?a ?b] =>
             lazymatch a with context [Qlt_le_dec] => fail | _ =>
             lazymatch b with context [Qlt_le_dec] => fail | _ =>
               destruct (Qlt_le_dec a b); cbv beta iota
             end end
         end.

Lemma clamp_mono (lo hi a b : Q) :
  a <= b -> py_min hi (py_max lo a) <= py_min hi (py_max lo b).
Proof. intros H. py_cases; lra. Qed.

(** C5 (counterexample): with [pct_target_min = 1 > pct_target_max = 0]
    the output (0) is not in the empty interval [1, 0]. *)
Lemma compute_new_quantile_range_cex :
  ~ (forall q_curr q_target q_obs speed pct_target_min pct_target_max,
       pct_target_min <= compute_new_quantile q_curr q_target q_obs speed
                           pct_target_min pct_target_max <= pct_target_max).
Proof.
  intros H. destruct (H 0 0 0 0 1 0) as [H1 H2].
  vm_compute in H1. now apply H1.
Qed.

(** C5 (amended): when [pct_target_min <= pct_target_max],
    compute_new_quantile returns
    [clamp(q_curr + speed*(q_target - q_obs), pct_target_min, pct_target_max)]
    and its output lies in [[pct_target_min, pct_target_max]]; when
    [pct_target_min > pct_target_max] it returns [pct_target_max]. *)
Theorem compute_new_quantile_clamp (q_curr q_target q_obs speed
    pct_target_min pct_target_max : Q) :
  let out := compute_new_quantile q_curr q_target q_obs speed
               pct_target_min pct_target_max in
  (pct_target_min <= pct_target_max ->
   out == spec_clamp (q_curr + speed * (q_target - q_obs))
            pct_target_min pct_target_max /\
   pct_target_min <= out /\ out <= pct_target_max) /\
  (pct_target_max < pct_target_min -> out = pct_target_max).
Proof.
  cbv zeta. unfold compute_new_quantile, spec_clamp.
  set (v := q_curr + speed * (q_target - q_obs)).
  split; intros H.
  - py_cases; split; try split; lra.
  - py_cases; try reflexivity; lra.
Qed.

Lemma compute_new_quantile_clamp_witness :
  PCT_TARGET_MIN <= PCT_TARGET_MAX /\
  PCT_TARGET_MIN <= compute_new_quantile PCT_TARGET PCT_TARGET 1 SPEED
                      PCT_TARGET_MIN PCT_TARGET_MAX /\
  (0 : Q) < 1 /\ compute_new_quantile 0 0 0 0 1 0 = 0.
Proof.
  assert (H : PCT_TARGET_MIN <= PCT_TARGET_MAX) by (vm_compute; discriminate).
  assert (H' : (0 : Q) < 1) by (vm_compute; reflexivity).
  split; [exact H|]. split.
  - apply (proj1 (compute_new_quantile_clamp PCT_TARGET PCT_TARGET 1 SPEED
                    PCT_TARGET_MIN PCT_TARGET_MAX) H).
  - split; [exact H'|].
    exact (proj2 (compute_new_quantile_clamp 0 0 0 0 1 0) H').
Defined.

(** C9: for [speed > 0], compute_new_quantile is non-increasing in
    [q_obs]. *)
Theorem compute_new_quantile_antitone (q_curr q_target q_obs1 q_obs2 speed
    pct_target_min pct_target_max : Q) :
  0 < speed -> q_obs1 <= q_obs2 ->
  compute_new_quantile q_curr q_target q_obs2 speed
    pct_target_min pct_target_max <=
  compute_new_quantile q_curr q_target q_obs1 speed
    pct_target_min pct_target_max.
Proof.
  intros Hs Ho. unfold compute_new_quantile. apply clamp_mono.
  assert (speed * (q_target - q_obs2) <= speed * (q_target - q_obs1)).
  { apply Qmult_le_l; [exact Hs | lra]. }
  lra.
Qed.

Lemma compute_new_quantile_antitone_witness :
  0 < SPEED /\ (0 : Q) <= 1 /\
  compute_new_quantile PCT_TARGET PCT_TARGET 1 SPEED
    PCT_TARGET_MIN PCT_TARGET_MAX <=
  compute_new_quantile PCT_TARGET PCT_TARGET 0 SPEED
    PCT_TARGET_MIN PCT_TARGET_MAX.
Proof.
  assert (H1 : 0 < SPEED) by (vm_compute; reflexivity).
  assert (H2 : (0 : Q) <= 1) by (vm_compute; discriminate).
  split; [exact H1|]. split; [exact H2|].
  exact (compute_new_quantile_antitone PCT_TARGET PCT_TARGET 0 1 SPEED
           PCT_TARGET_MIN PCT_TARGET_MAX H1 H2).
Defined.

(** C10: when [pct_target_min > pct_target_max], compute_new_quantile
    returns [pct_target_max] whatever the other inputs, since the upper clamp
    is applied last. *)
Theorem compute_new_quantile_inverted_bounds (q_curr q_target q_obs speed
    pct_target_min pct_target_max : Q) :
  pct_target_max < pct_target_min ->
  compute_new_quantile q_curr q_target q_obs speed
    pct_target_min pct_target_max = pct_target_max.
Proof.
  intros H. unfold compute_new_quantile.
  py_cases; try reflexivity; lra.
Qed.

Lemma compute_new_quantile_inverted_bounds_witness :
  (0 : Q) < 1 /\ compute_new_quantile 0 0 0 0 1 0 = 0.
Proof.
  assert (H : (0 : Q) < 1) by (vm_compute; reflexivity).
  split; [exact H|].
  exact (compute_new_quantile_inverted_bounds 0 0 0 0 1 0 H).
Defined.

(** ** compute_quantile *)

(** C8 (counterexample): on a sequence left empty by dropping missing
    values, compute_quantile raises nothing: it returns NaN. *)
Lemma compute_quantile_empty_cex :
  compute_quantile [NaN] (1 # 2) <> None /\
  compute_quantile [NaN] (1 # 2) = Some NaN.
Proof. split; [discriminate | reflexivity]. Qed.

(** C8 (amended): for a quantile in [[0, 1]], compute_quantile on a
    sequence that is empty after dropping missing values returns NaN
    instead of raising an error. *)
Theorem compute_quantile_empty (array : list pyfloat) (quantile : Q) :
  0 <= quantile -> quantile <= 1 -> dropna array = [] ->
  compute_quantile array quantile = Some NaN.
Proof.
  intros H0 H1 He. unfold compute_quantile.
  apply Qle_bool_iff in H0. apply Qle_bool_iff in H1.
  rewrite H0, H1, He. reflexivity.
Qed.

Lemma compute_quantile_empty_witness :
  compute_quantile [NaN; NaN] PCT_TARGET = Some NaN.
Proof.
  apply compute_quantile_empty;
    [vm_compute; discriminate | vm_compute; discriminate | reflexivity].
Defined.

(** ** The orchestrator *)

Lemma retain_recent_single (r : row) :
  retain_recent BACKTEST LOOKBACK [r] = [r].
Proof.
  unfold retain_recent, rank_first_desc, count_if. simpl.
  rewrite Z.ltb_irrefl, andb_false_r. reflexivity.
Qed.

(** C7 (counterexample): a group with one trade (log price 0) is not
    skipped: main emits a record for it whose log price estimate is the
    sentinel -42. *)
Lemma main_group_single_cex :
  main_group [mkRow 1 1 1 0] <> None /\
  match main_group [mkRow 1 1 1 0] with
  | Some [(_, Fin lpa)] => lpa == sentinel
  | _ => False
  end.
Proof. split; [vm_compute; discriminate | vm_compute; reflexivity]. Qed.

(** C7 (amended): a group with exactly one trade is neither skipped nor
    reported as failed: main emits one record for it, whose log price
    estimate is the sentinel -42.0 (floor price [exp(-42.0)]), whatever the
    trade. *)
Theorem main_group_single (r : row) :
  match main_group [r] with
  | Some [(_, Fin lpa)] => lpa == sentinel
  | _ => False
  end.
Proof.
  unfold main_group. rewrite retain_recent_single. unfold group_result.
  replace (create_lookback [r] LOOKBACK) with [(r, [sentinel], 0%Z)]
    by reflexivity.
  simpl.
  destruct (Qle_bool (log_price r) (linear_quantile [sentinel] PCT_TARGET));
    vm_compute; reflexivity.
Qed.

(** C2 (code_bug): a group of [BACKTEST + 2 * LOOKBACK = 1080] trades with
    block numbers 1..1080 loses its oldest trade: the filter
    [rank < BACKTEST + LOOKBACK * 2] on 1-based ranks keeps 1079 trades. *)
Theorem retain_recent_drops_one :
  length (frame_of 1080) = Z.to_nat (BACKTEST + 2 * LOOKBACK) /\
  retain_recent BACKTEST LOOKBACK (frame_of 1080) = tl (frame_of 1080) /\
  length (retain_recent BACKTEST LOOKBACK (frame_of 1080)) = 1079%nat.
Proof. vm_compute. repeat split; reflexivity. Qed.

(** ** Further properties of the code *)

Module Sorting.

Lemma In_insert_sorted (x y : Q) (l : list Q) :
  In x (insert_sorted y l) <-> y = x \/ In x l.
Proof.
  induction l as [|z l IH]; simpl; [tauto|].
  destruct (Qle_bool y z); simpl; [tauto|]. rewrite IH. tauto.
Qed.

Lemma In_sort_q (x : Q) (l : list Q) : In x (sort_q l) <-> In x l.
Proof.
  induction l as [|y l IH]; simpl; [tauto|].
  rewrite In_insert_sorted, IH. intuition.
Qed.

Lemma length_insert_sorted (x : Q) (l : list Q) :
  length (insert_sorted x l) = S (length l).
Proof.
  induction l as [|y l IH]; simpl; [reflexivity|].
  destruct (Qle_bool x y); simpl; [reflexivity|now rewrite IH].
Qed.

Lemma length_sort_q (l : list Q) : length (sort_q l) = length l.
Proof.
  induction l as [|y l IH]; simpl; [reflexivity|].
  now rewrite length_insert_sorted, IH.
Qed.

Lemma insert_sorted_sorted (x : Q) (l : list Q) :
  Sorted Qle l -> Sorted Qle (insert_sorted x l).
Proof.
  induction 1 as [|y l Hs IH Hd]; simpl; [repeat constructor|].
  destruct (Qle_bool x y) eqn:E.
  - apply Qle_bool_iff in E. constructor; [constructor; assumption|].
    constructor. exact E.
  - assert (Hyx : y <= x)
      by (apply Qlt_le_weak, Qnot_le_lt; intros H;
          apply Qle_bool_iff in H; congruence).
    constructor; [exact IH|].
    destruct l as [|z l]; simpl; [constructor; exact Hyx|].
    inversion Hd; subst.
    destruct (Qle_bool x z); constructor; assumption.
Qed.

Lemma sort_q_sorted (l : list Q) : StronglySorted Qle (sort_q l).
Proof.
  apply Sorted_StronglySorted; [intros a b c; apply Qle_trans|].
  induction l as [|y l IH]; simpl; [constructor|].
  now apply insert_sorted_sorted.
Qed.

Lemma nth_sorted_mono (l : list Q) (i j : nat) :
  StronglySorted Qle l -> (i <= j)%nat -> (j < length l)%nat ->
  nth i l 0 <= nth j l 0.
Proof.
  intros Hs. revert i j.
  induction Hs as [|x l Hs IH Hall]; intros i j Hij Hj; simpl in Hj; [lia|].
  destruct i as [|i], j as [|j]; simpl; try lia.
  - apply Qle_refl.
  - rewrite Forall_forall in Hall. apply Hall, nth_In. lia.
  - apply IH; lia.
Qed.

End Sorting.

Module QuantileFacts.

(** A point of the segment from [a] to [b] stays within bounds both ends
    respect. *)
Lemma lerp_bounds (a b t c C : Q) :
  c <= a <= C -> c <= b <= C -> 0 <= t <= 1 ->
  c <= a + (b - a) * t <= C.
Proof.
  intros [Ha1 Ha2] [Hb1 Hb2] [Ht1 Ht2].
  assert (H1 : 0 <= (a - c) * (1 - t)) by (apply Qmult_le_0_compat; lra).
  assert (H2 : 0 <= (b - c) * t) by (apply Qmult_le_0_compat; lra).
  assert (H3 : 0 <= (C - a) * (1 - t)) by (apply Qmult_le_0_compat; lra).
  assert (H4 : 0 <= (C - b) * t) by (apply Qmult_le_0_compat; lra).
  split; nra.
Qed.

Lemma floor_bounds (h : Q) (m : Z) :
  0 <= h -> h <= inject_Z m ->
  (0 <= Qfloor h)%Z /\ (Qfloor h <= m)%Z /\
  0 <= h - inject_Z (Qfloor h) /\ h - inject_Z (Qfloor h) <= 1.
Proof.
  intros H0 H1.
  pose proof (Qfloor_resp_le _ _ H0) as F0.
  pose proof (Qfloor_resp_le _ _ H1) as F1.
  rewrite Qfloor_Z in F1.
  pose proof (Qfloor_le h). pose proof (Qlt_floor h).
  rewrite inject_Z_plus in *. change (Qfloor 0) with 0%Z in F0.
  change (inject_Z 1) with 1 in *.
  repeat split; try lia; lra.
Qed.

Lemma inject_Z_pred (z : Z) : inject_Z (z - 1) == inject_Z z - 1.
Proof. unfold Qeq, Qminus, Qplus, Qopp, inject_Z; simpl. lia. Qed.

(** numpy's linear quantile of [s] is a point of a segment between two of
    its order statistics. *)
Lemma linear_quantile_segment (s : list Q) (q : Q) :
  (1 <= length s)%nat -> 0 <= q -> q <= 1 ->
  exists i j t, (i < length s)%nat /\ (j < length s)%nat /\
    0 <= t <= 1 /\
    linear_quantile s q = nth i s 0 + (nth j s 0 - nth i s 0) * t.
Proof.
  intros Hn Hq0 Hq1. unfold linear_quantile. cbv zeta.
  set (n := length s) in *.
  set (N := inject_Z (Z.of_nat n) - 1).
  assert (HN : 0 <= N).
  { unfold N. assert (inject_Z 1 <= inject_Z (Z.of_nat n))
      by (rewrite <- Zle_Qle; lia).
    change (inject_Z 1) with 1 in *. lra. }
  assert (Hh0 : 0 <= N * q) by (apply Qmult_le_0_compat; assumption).
  assert (Hh1 : N * q <= inject_Z (Z.of_nat n - 1)).
  { rewrite inject_Z_pred. fold N.
    assert (N * q <= N * 1) by (apply Qmult_le_compat_nonneg; lra).
    lra. }
  destruct (floor_bounds (N * q) (Z.of_nat n - 1) Hh0 Hh1)
    as [F0 [F1 [T0 T1]]].
  exists (Z.to_nat (Qfloor (N * q))),
         (Z.to_nat (Z.min (Qfloor (N * q) + 1) (Z.of_nat n - 1))),
         (N * q - inject_Z (Qfloor (N * q))).
  repeat split; try lia; try assumption.
Qed.

End QuantileFacts.

(** [compute_quantile] at a quantile in [[0, 1]] of a sequence with a
    non-NaN value returns a number (never NaN, never an error) lying within
    any bounds that all non-NaN input values respect. *)
Theorem compute_quantile_within (array : list pyfloat) (quantile c C : Q) :
  0 <= quantile -> quantile <= 1 -> dropna array <> [] ->
  (forall x, In x (dropna array) -> c <= x <= C) ->
  exists v, compute_quantile array quantile = Some (Fin v) /\ c <= v <= C.
Proof.
  intros Hq0 Hq1 Hne Hb. unfold compute_quantile.
  assert (E0 : Qle_bool 0 quantile = true) by now apply Qle_bool_iff.
  assert (E1 : Qle_bool quantile 1 = true) by now apply Qle_bool_iff.
  rewrite E0, E1. simpl.
  destruct (dropna array) as [|x l] eqn:Ed; [congruence|].
  set (s := sort_q (x :: l)).
  assert (Hs : (1 <= length s)%nat)
    by (unfold s; rewrite Sorting.length_sort_q; simpl; lia).
  destruct (QuantileFacts.linear_quantile_segment s quantile Hs Hq0 Hq1)
    as [i [j [t [Hi [Hj [Ht E]]]]]].
  exists (linear_quantile s quantile). split; [reflexivity|].
  rewrite E. apply QuantileFacts.lerp_bounds; [| |exact Ht];
    apply Hb, (Sorting.In_sort_q _ (x :: l)), nth_In; assumption.
Qed.

Lemma compute_quantile_within_witness :
  exists v, compute_quantile [Fin 3; NaN; Fin 1; Fin 2] (1 # 2) = Some (Fin v)
            /\ 1 <= v <= 3.
Proof.
  apply compute_quantile_within;
    [vm_compute; discriminate | vm_compute; discriminate | discriminate |].
  intros x Hx. simpl in Hx.
  destruct Hx as [<-|[<-|[<-|[]]]]; split; vm_compute; discriminate.
Defined.

Lemma compute_quantile_valid_q (array : list pyfloat) (q : Q) :
  0 <= q -> q <= 1 ->
  compute_quantile array q =
    match dropna array with
    | [] => Some NaN
    | vs => Some (Fin (linear_quantile (sort_q vs) q))
    end.
Proof.
  intros H0 H1. unfold compute_quantile.
  apply Qle_bool_iff in H0. apply Qle_bool_iff in H1.
  rewrite H0, H1. reflexivity.
Qed.

(** At quantile 0, [compute_quantile] of a sequence with a non-NaN value
    returns its smallest non-NaN value. *)
Theorem compute_quantile_zero_min (array : list pyfloat) :
  dropna array <> [] ->
  exists v, compute_quantile array 0 = Some (Fin v) /\
    (exists m, In m (dropna array) /\ v == m) /\
    (forall x, In x (dropna array) -> v <= x).
Proof.
  intros Hne. rewrite compute_quantile_valid_q by lra.
  destruct (dropna array) as [|x l] eqn:Ed; [congruence|].
  set (s := sort_q (x :: l)).
  assert (Hs : (1 <= length s)%nat)
    by (unfold s; rewrite Sorting.length_sort_q; simpl; lia).
  eexists. split; [reflexivity|].
  unfold linear_quantile. cbv zeta.
  set (h := (inject_Z (Z.of_nat (length s)) - 1) * 0).
  assert (Hh : h == 0) by (unfold h; ring).
  assert (Hf : Qfloor h = 0%Z).
  { apply Z.le_antisymm.
    - change 0%Z with (Qfloor 0). apply Qfloor_resp_le. lra.
    - change 0%Z with (Qfloor 0). apply Qfloor_resp_le. lra. }
  rewrite Hf. simpl Z.to_nat.
  assert (Hv : forall b,
             nth 0 s 0 + (b - nth 0 s 0) * (h - inject_Z 0) == nth 0 s 0)
    by (intros b; rewrite Hh; ring).
  split.
  - exists (nth 0 s 0). split; [|apply Hv].
    apply (Sorting.In_sort_q _ (x :: l)), nth_In. fold s. lia.
  - intros y Hy. rewrite Hv.
    apply (Sorting.In_sort_q _ (x :: l)) in Hy. fold s in Hy.
    destruct (In_nth s y 0 Hy) as [k [Hk <-]].
    apply Sorting.nth_sorted_mono; [apply Sorting.sort_q_sorted|lia|exact Hk].
Qed.

Lemma compute_quantile_zero_min_witness :
  exists v, compute_quantile [Fin 3; NaN; Fin 1; Fin 2] 0 = Some (Fin v) /\
    (exists m, In m [3; 1; 2] /\ v == m) /\
    (forall x, In x [3; 1; 2] -> v <= x).
Proof. apply compute_quantile_zero_min. discriminate. Defined.

(** At quantile 1, [compute_quantile] of a sequence with a non-NaN value
    returns its largest non-NaN value. *)
Theorem compute_quantile_one_max (array : list pyfloat) :
  dropna array <> [] ->
  exists v, compute_quantile array 1 = Some (Fin v) /\
    (exists m, In m (dropna array) /\ v == m) /\
    (forall x, In x (dropna array) -> x <= v).
Proof.
  intros Hne. rewrite compute_quantile_valid_q by lra.
  destruct (dropna array) as [|x l] eqn:Ed; [congruence|].
  set (s := sort_q (x :: l)).
  assert (Hs : (1 <= length s)%nat)
    by (unfold s; rewrite Sorting.length_sort_q; simpl; lia).
  eexists. split; [reflexivity|].
  unfold linear_quantile. cbv zeta.
  set (n := length s) in *.
  set (h := (inject_Z (Z.of_nat n) - 1) * 1).
  assert (Hh : h == inject_Z (Z.of_nat n - 1))
    by (unfold h; rewrite QuantileFacts.inject_Z_pred; ring).
  assert (Hf : Qfloor h = (Z.of_nat n - 1)%Z).
  { apply Z.le_antisymm.
    - rewrite <- (Qfloor_Z (Z.of_nat n - 1)). apply Qfloor_resp_le. lra.
    - rewrite <- (Qfloor_Z (Z.of_nat n - 1)) at 1.
      apply Qfloor_resp_le. lra. }
  rewrite Hf.
  replace (Z.min (Z.of_nat n - 1 + 1) (Z.of_nat n - 1)) with
    (Z.of_nat n - 1)%Z by lia.
  set (a := nth (Z.to_nat (Z.of_nat n - 1)) s 0).
  assert (Hv : a + (a - a) * (h - inject_Z (Z.of_nat n - 1)) == a) by ring.
  assert (Ha : Z.to_nat (Z.of_nat n - 1) = (n - 1)%nat) by lia.
  split.
  - exists a. split; [|exact Hv].
    apply (Sorting.In_sort_q _ (x :: l)). fold s. unfold a. rewrite Ha.
    apply nth_In. lia.
  - intros y Hy. rewrite Hv.
    apply (Sorting.In_sort_q _ (x :: l)) in Hy. fold s in Hy.
    destruct (In_nth s y 0 Hy) as [k [Hk <-]].
    unfold a. rewrite Ha.
    apply Sorting.nth_sorted_mono; [apply Sorting.sort_q_sorted|lia|lia].
Qed.

Lemma compute_quantile_one_max_witness :
  exists v, compute_quantile [Fin 3; NaN; Fin 1; Fin 2] 1 = Some (Fin v) /\
    (exists m, In m [3; 1; 2] /\ v == m) /\
    (forall x, In x [3; 1; 2] -> x <= v).
Proof. apply compute_quantile_one_max. discriminate. Defined.

Module Median.

Lemma median_cases (l : list Q) :
  l <> [] ->
  let s := sort_q l in
  let n := length l in
  let k := Nat.div2 n in
  (k < n)%nat /\
  ((np_median l = nth k s 0) \/
   ((1 <= k)%nat /\ np_median l = (nth (k - 1) s 0 + nth k s 0) / 2)).
Proof.
  intros Hne. cbv zeta.
  assert (Hn : (1 <= length l)%nat) by (destruct l; [congruence|simpl; lia]).
  split; [apply Nat.lt_div2; lia|].
  unfold np_median. cbv zeta.
  destruct (Nat.even (length l)) eqn:E; [right|left; reflexivity].
  apply Nat.even_spec in E. destruct E as [p Hp].
  destruct (length l) as [|n'] eqn:En; [lia|].
  rewrite <- En in *. rewrite Hp.
  rewrite Nat.div2_div. split; [|reflexivity].
  rewrite Nat.mul_comm, Nat.div_mul by lia. lia.
Qed.

Lemma nth_sort_In (l : list Q) (i : nat) :
  (i < length l)%nat -> In (nth i (sort_q l) 0) l.
Proof.
  intros Hi. apply Sorting.In_sort_q, nth_In.
  now rewrite Sorting.length_sort_q.
Qed.

(** The median is at least any lower bound of the values. *)
Lemma median_ge_lower (l : list Q) (c : Q) :
  l <> [] -> (forall x, In x l -> c <= x) -> c <= np_median l.
Proof.
  intros Hne Hc.
  destruct (median_cases l Hne) as [Hk [E|[Hk1 E]]]; rewrite E.
  - apply Hc, nth_sort_In. exact Hk.
  - assert (c <= nth (Nat.div2 (length l) - 1) (sort_q l) 0)
      by (apply Hc, nth_sort_In; lia).
    assert (c <= nth (Nat.div2 (length l)) (sort_q l) 0)
      by (apply Hc, nth_sort_In; lia).
    apply Qle_shift_div_l; [reflexivity|]. lra.
Qed.

Lemma mad_nonneg (l : list Q) : l <> [] -> 0 <= median_abs_deviation l.
Proof.
  intros Hne. unfold median_abs_deviation.
  apply median_ge_lower.
  - destruct l; simpl; congruence.
  - intros y Hy. apply in_map_iff in Hy. destruct Hy as [x [<- _]].
    apply Qabs_nonneg.
Qed.

Lemma within_bounds (m d x : Q) :
  Qabs (x - m) <= d -> 0 <= d ->
  Qle_bool (m - 3 * d) x && Qle_bool x (m + 3 * d) = true.
Proof.
  intros H Hd. apply Qabs_Qle_condition in H.
  apply andb_true_iff. rewrite !Qle_bool_iff. split; lra.
Qed.

End Median.

(** [remove_outliers] never removes a value equal to the median of its
    input. *)
Theorem remove_outliers_keeps_median (xs : list Q) (x : Q) :
  In x xs -> x == np_median xs -> In x (remove_outliers xs).
Proof.
  intros Hin Hx. unfold remove_outliers. apply filter_In. split; [exact Hin|].
  apply Median.within_bounds.
  - assert (Hz : Qabs (x - np_median xs) == 0) by (rewrite Hx, Qabs_pos; lra).
    rewrite Hz. apply Median.mad_nonneg. intros E; rewrite E in Hin; exact Hin.
  - apply Median.mad_nonneg. intros E; rewrite E in Hin; exact Hin.
Qed.

Lemma remove_outliers_keeps_median_witness :
  In 2 (remove_outliers [1; 2; 100]).
Proof.
  apply remove_outliers_keeps_median;
    [simpl; tauto | vm_compute; reflexivity].
Defined.

Lemma upper_middle_closest (xs : list Q) :
  xs <> [] ->
  let b := nth (Nat.div2 (length xs)) (sort_q xs) 0 in
  forall x, In x xs -> Qabs (b - np_median xs) <= Qabs (x - np_median xs).
Proof.
  intros Hne b x Hx.
  pose proof (Sorting.sort_q_sorted xs) as Hs.
  destruct (Median.median_cases xs Hne) as [Hk [E|[Hk1 E]]];
    fold b in E |- *; cbv zeta in Hk.
  - rewrite E. assert (Hz : Qabs (b - b) == 0) by (rewrite Qabs_pos; lra).
    rewrite Hz. apply Qabs_nonneg.
  - set (a := nth (Nat.div2 (length xs) - 1) (sort_q xs) 0) in E.
    set (m := np_median xs) in *.
    assert (Hm : 2 * m == a + b) by (rewrite E; field).
    assert (Hab : a <= b).
    { apply Sorting.nth_sorted_mono; [exact Hs|lia|].
      now rewrite Sorting.length_sort_q. }
    assert (Hb : Qabs (b - m) <= b - m)
      by (apply Qabs_Qle_condition; lra).
    apply (Sorting.In_sort_q x xs) in Hx.
    destruct (In_nth _ _ 0 Hx) as [j [Hj Ej]].
    rewrite Sorting.length_sort_q in Hj.
    destruct (Nat.le_gt_cases j (Nat.div2 (length xs) - 1)) as [Hle|Hgt].
    + assert (x <= a).
      { rewrite <- Ej. apply Sorting.nth_sorted_mono; [exact Hs|lia|].
        rewrite Sorting.length_sort_q. lia. }
      pose proof (Qle_Qabs (- (x - m))) as Hq. rewrite Qabs_opp in Hq.
      lra.
    + assert (b <= x).
      { rewrite <- Ej. apply Sorting.nth_sorted_mono; [exact Hs|lia|].
        rewrite Sorting.length_sort_q. lia. }
      pose proof (Qle_Qabs (x - m)). lra.
Qed.

Lemma upper_middle_survives (xs : list Q) :
  xs <> [] ->
  In (nth (Nat.div2 (length xs)) (sort_q xs) 0) (remove_outliers xs).
Proof.
  intros Hne.
  destruct (Median.median_cases xs Hne) as [Hk _].
  unfold remove_outliers. apply filter_In.
  split; [now apply Median.nth_sort_In|].
  apply Median.within_bounds; [|now apply Median.mad_nonneg].
  unfold median_abs_deviation. apply Median.median_ge_lower.
  - destruct xs; simpl; congruence.
  - intros y Hy. apply in_map_iff in Hy. destruct Hy as [x [<- Hx]].
    now apply upper_middle_closest.
Qed.

Lemma remove_outliers_not_nil (xs : list Q) :
  xs <> [] -> remove_outliers xs <> [].
Proof.
  intros Hne E. pose proof (upper_middle_survives xs Hne) as H.
  rewrite E in H. exact H.
Qed.

(** [remove_outliers] never empties a non-empty input: the upper middle
    order statistic (the median itself for an odd count) always survives. *)
Theorem remove_outliers_nonempty (xs : list Q) :
  xs <> [] ->
  In (nth (Nat.div2 (length xs)) (sort_q xs) 0) (remove_outliers xs) /\
  remove_outliers xs <> [].
Proof.
  intros Hne. split.
  - now apply upper_middle_survives.
  - now apply remove_outliers_not_nil.
Qed.

Lemma remove_outliers_nonempty_witness :
  remove_outliers [0; 0; 1; 3] <> [].
Proof. apply remove_outliers_nonempty. discriminate. Defined.

Module Pipeline.

Lemma all_ok_some {A B} (f : A -> option B) (P : B -> Prop) (l : list A) :
  (forall x, In x l -> exists y, f x = Some y /\ P y) ->
  exists ys, all_ok f l = Some ys /\ length ys = length l /\ Forall P ys.
Proof.
  induction l as [|x l IH]; intros H; simpl.
  - exists []. repeat split. constructor.
  - destruct (H x (or_introl eq_refl)) as [y [Ey Py]].
    destruct IH as [ys [Eys [Lys Fys]]]; [intros z Hz; apply H; now right|].
    rewrite Ey, Eys. exists (y :: ys). simpl. repeat split; [lia|].
    now constructor.
Qed.

Lemma dropna_map_Fin (w : list Q) : dropna (map Fin w) = w.
Proof. induction w as [|x w IH]; simpl; [reflexivity|now rewrite IH]. Qed.

Lemma compute_quantile_finite (w : list Q) (q : Q) :
  w <> [] -> 0 <= q -> q <= 1 ->
  exists v, compute_quantile (map Fin w) q = Some (Fin v).
Proof.
  intros Hw H0 H1. rewrite compute_quantile_valid_q by assumption.
  rewrite dropna_map_Fin. destruct w; [congruence|]. eexists. reflexivity.
Qed.

Lemma clamp_within (lo hi v : Q) :
  lo <= hi -> lo <= py_min hi (py_max lo v) /\ py_min hi (py_max lo v) <= hi.
Proof. intros H. py_cases; split; lra. Qed.

Lemma spec_window_nonempty (sorted : list row) (lookback : Z) (i : nat) :
  (1 <= lookback)%Z -> spec_window sorted lookback i <> [].
Proof.
  intros Hl. destruct i as [|i]; [discriminate|].
  unfold spec_window.
  set (st := Z.to_nat (Z.max 0 (Z.of_nat (S i) - lookback))).
  assert (Hst : (st < S i)%nat) by (unfold st; lia).
  destruct (S i - st)%nat as [|k] eqn:E; [lia|]. discriminate.
Qed.

Lemma in_iloc_last {A} (l : list A) (n : Z) (x : A) :
  In x (iloc_last l n) -> In x l.
Proof.
  unfold iloc_last. intros H.
  rewrite <- (firstn_skipn (length l - Z.to_nat n) l).
  apply in_or_app. now right.
Qed.

Lemma last_opt_single {A} (P : A -> Prop) (l : list A) :
  l <> [] -> Forall P l -> exists x, last_opt l = [x] /\ P x.
Proof.
  intros Hne HP. unfold last_opt.
  destruct (rev l) as [|x r] eqn:E.
  - apply (f_equal (@rev A)) in E. rewrite rev_involutive in E.
    simpl in E. congruence.
  - exists x. split; [reflexivity|].
    rewrite Forall_forall in HP. apply HP, in_rev. rewrite E. now left.
Qed.

End Pipeline.

(** For every non-empty group, the per-group pipeline of main (lines 33-108)
    raises nothing and emits exactly one record, whose log price estimate is
    a number (never NaN) and whose adjusted quantile lies in
    [[PCT_TARGET_MIN, PCT_TARGET_MAX]]. *)
Theorem group_result_one_record (g : list row) :
  g <> [] ->
  exists qa v, group_result g = Some [(qa, Fin v)] /\
    PCT_TARGET_MIN <= qa <= PCT_TARGET_MAX.
Proof.
  intros Hg. unfold group_result.
  set (lb := create_lookback g LOOKBACK).
  assert (Hwin : forall r w t, In (r, w, t) lb -> w <> []).
  { intros r w t Hin.
    assert (Hw : In w (map (fun '(_, w, _) => w) lb))
      by (apply in_map_iff; now exists (r, w, t)).
    unfold lb in Hw. rewrite Lookback.windows_spec in Hw.
    apply in_map_iff in Hw. destruct Hw as [i [<- _]].
    apply Pipeline.spec_window_nonempty. unfold LOOKBACK. lia. }
  set (bt := iloc_last lb BACKTEST).
  assert (Hbt : (1 <= length bt)%nat).
  { unfold bt, iloc_last. rewrite length_skipn.
    unfold lb. rewrite Lookback.length_create_lookback.
    change (Z.to_nat BACKTEST) with 800%nat.
    destruct g; [congruence|]. cbn [length]. lia. }
  set (no_outliers := map (fun '(r, w, _) => (r, remove_outliers w)) bt).
  destruct (Pipeline.all_ok_some
              (fun '(r, w) =>
                 match compute_quantile (map Fin w) PCT_TARGET with
                 | Some t => Some (r, w, py_le (log_price r) t)
                 | None => None
                 end)
              (fun '(_, w, _) => w <> []) no_outliers)
    as [rows [E1 [L1 F1]]].
  { intros x Hx. unfold no_outliers in Hx. apply in_map_iff in Hx.
    destruct Hx as [[[r w] t] [<- Hx]].
    assert (Hw : remove_outliers w <> []).
    { apply remove_outliers_not_nil.
      apply (Hwin r w t). apply (Pipeline.in_iloc_last _ BACKTEST). exact Hx. }
    destruct (Pipeline.compute_quantile_finite (remove_outliers w) PCT_TARGET Hw)
      as [v Ev]; [vm_compute; discriminate|vm_compute; discriminate|].
    rewrite Ev. eexists. split; [reflexivity|exact Hw]. }
  rewrite E1.
  set (quantile_adj := compute_new_quantile PCT_TARGET PCT_TARGET _ SPEED
                         PCT_TARGET_MIN PCT_TARGET_MAX).
  assert (Hqa : PCT_TARGET_MIN <= quantile_adj <= PCT_TARGET_MAX).
  { apply Pipeline.clamp_within. vm_compute. discriminate. }
  destruct (Pipeline.all_ok_some
              (fun '(_, w, _) => compute_quantile (map Fin w) quantile_adj)
              (fun a => exists v, a = Fin v) rows) as [adj [E2 [L2 F2]]].
  { intros [[r w] s] Hx. rewrite Forall_forall in F1.
    specialize (F1 _ Hx). simpl in F1.
    assert (H0 : 0 <= quantile_adj)
      by (destruct Hqa as [H _]; unfold PCT_TARGET_MIN in H; lra).
    assert (H1 : quantile_adj <= 1)
      by (destruct Hqa as [_ H]; unfold PCT_TARGET_MAX in H; lra).
    destruct (Pipeline.compute_quantile_finite w quantile_adj F1 H0 H1)
      as [v Ev].
    rewrite Ev. eexists. split; [reflexivity|]. now exists v. }
  rewrite E2.
  assert (Hadj : adj <> []).
  { intros E. rewrite E in L2. unfold no_outliers in L1.
    rewrite length_map in L1. simpl in L2. lia. }
  destruct (Pipeline.last_opt_single _ adj Hadj F2) as [a [Ea [v ->]]].
  rewrite Ea. exists quantile_adj, v. split; [reflexivity|exact Hqa].
Qed.

Lemma group_result_one_record_witness :
  exists qa v, group_result sample_group = Some [(qa, Fin v)] /\
    PCT_TARGET_MIN <= qa <= PCT_TARGET_MAX.
Proof. apply group_result_one_record. discriminate. Defined.

Module RowSort.

Lemma insert_row_sorted (r : row) (l : list row) :
  sorted_by_block l -> sorted_by_block (insert_row r l).
Proof.
  unfold sorted_by_block.
  induction 1 as [|y l Hs IH Hd]; simpl; [repeat constructor|].
  destruct (Z.leb_spec (block_number r) (block_number y)) as [E|E].
  - constructor; [constructor; assumption|]. constructor. exact E.
  - constructor; [exact IH|].
    destruct l as [|z l]; simpl; [constructor; lia|].
    inversion Hd; subst.
    destruct (Z.leb (block_number r) (block_number z));
      constructor; lia.
Qed.

Lemma sort_values_block_sorted_out (l : list row) :
  sorted_by_block (sort_values_block l).
Proof.
  induction l as [|r l IH]; simpl; [constructor|].
  now apply insert_row_sorted.
Qed.

Lemma insert_row_perm (r : row) (l : list row) :
  Permutation (insert_row r l) (r :: l).
Proof.
  induction l as [|y l IH]; simpl; [reflexivity|].
  destruct (Z.leb _ _); [reflexivity|].
  rewrite IH. apply perm_swap.
Qed.

Lemma sort_values_block_perm (l : list row) :
  Permutation (sort_values_block l) l.
Proof.
  induction l as [|r l IH]; simpl; [reflexivity|].
  rewrite insert_row_perm. now apply perm_skip.
Qed.

End RowSort.

(** For any input, [create_lookback] returns the input rows reordered
    ascending by block number (none lost, none duplicated), and numbers them
    with [trade_id] 0, 1, ..., n-1 in that order. *)
Theorem create_lookback_rows_sorted (data : list row) (lookback : Z) :
  let out := create_lookback data lookback in
  sorted_by_block (map (fun '(r, _, _) => r) out) /\
  Permutation (map (fun '(r, _, _) => r) out) data /\
  map (fun '(_, _, t) => t) out = map Z.of_nat (seq 0 (length data)).
Proof.
  cbv zeta.
  destruct (Lookback.create_lookback_columns data lookback) as [Hr [_ Ht]].
  rewrite Hr, Ht, Lookback.length_sort_values_block.
  split; [apply RowSort.sort_values_block_sorted_out|].
  split; [apply RowSort.sort_values_block_perm|reflexivity].
Qed.

Module Rolling.

Lemma fraction_bounds (c w : Z) :
  (0 <= c <= w)%Z -> (1 <= w)%Z ->
  0 <= inject_Z c / inject_Z w /\ inject_Z c / inject_Z w <= 1.
Proof.
  intros [H0 H1] Hw.
  assert (Hw' : 0 < inject_Z w)
    by (change 0 with (inject_Z 0); rewrite <- Zlt_Qlt; lia).
  split.
  - apply Qle_shift_div_l; [exact Hw'|].
    rewrite Qmult_0_l. change 0 with (inject_Z 0). rewrite <- Zle_Qle. lia.
  - apply Qle_shift_div_r; [exact Hw'|].
    rewrite Qmult_1_l. rewrite <- Zle_Qle. lia.
Qed.

End Rolling.

(** [compute_quantile_obs] with a window [backtest >= 1], whatever order
    [sort_values("trade_id")] gives to equal trade ids, returns one row per
    input row, sorted by [trade_id]; its [quantile_obs] is NaN at the first
    [backtest - 1] positions and elsewhere a number in [[0, 1]].  When the
    trade ids are distinct (as [create_lookback] numbers them), the sorted
    frame, and so the output, is the same for every admissible sort. *)
Theorem compute_quantile_obs_values (data result : list obs_row)
    (backtest : Z) :
  sorts_by obs_trade_id data result -> (1 <= backtest)%Z ->
  exists out, compute_quantile_obs_sorted result backtest = Some out /\
    map fst out = result /\
    Permutation data (map fst out) /\
    Sorted (fun a b => (obs_trade_id a <= obs_trade_id b)%Z) (map fst out) /\
    (forall i v, nth_error (map snd out) i = Some v ->
      ((Z.of_nat (S i) < backtest)%Z /\ v = NaN) \/
      ((backtest <= Z.of_nat (S i))%Z /\ exists x, v = Fin x /\ 0 <= x <= 1)) /\
    (NoDup (map obs_trade_id data) ->
     forall result', sorts_by obs_trade_id data result' ->
       compute_quantile_obs_sorted result' backtest = Some out).
Proof.
  intros [Hp Hs] Hb. unfold compute_quantile_obs_sorted, rolling_mean.
  replace (Z.ltb backtest 0) with false by (symmetry; apply Z.ltb_ge; lia).
  replace (Z.eqb backtest 0) with false by (symmetry; apply Z.eqb_neq; lia).
  set (f := fun i : nat =>
              if Z.ltb (Z.of_nat (S i)) backtest then NaN
              else Fin (inject_Z (count_true
                        (firstn (Z.to_nat backtest)
                           (skipn (S i - Z.to_nat backtest)
                              (map obs_price_smaller result))))
                        / inject_Z backtest)).
  set (qs := map f (seq 0 (length (map obs_price_smaller result)))).
  assert (Hl : length result = length qs)
    by (unfold qs; now rewrite !length_map, length_seq).
  assert (Hr : map fst (combine result qs) = result)
    by now apply Lookback.combine_fst.
  exists (combine result qs). split; [reflexivity|].
  split; [exact Hr|]. rewrite Hr.
  split; [exact Hp|]. split; [exact Hs|]. split.
  - intros i v Hv. rewrite (Lookback.combine_snd _ _ Hl) in Hv.
    unfold qs in Hv. rewrite nth_error_map, nth_error_seq in Hv.
    destruct (Nat.ltb i _); [|discriminate].
    simpl in Hv. injection Hv as <-. unfold f.
    destruct (Z.ltb_spec (Z.of_nat (S i)) backtest) as [E|E];
      [left; split; [exact E|reflexivity]|right].
    split; [exact E|]. eexists. split; [reflexivity|].
    apply Rolling.fraction_bounds; [|exact Hb].
    unfold count_true, count_if.
    set (w := firstn _ _).
    pose proof (filter_length_le (fun b : bool => b) w).
    pose proof (firstn_le_length (Z.to_nat backtest)
                  (skipn (S i - Z.to_nat backtest)
                     (map obs_price_smaller result))).
    fold w in H0. lia.
  - intros Hn result' [Hp' Hs'].
    assert (E : result = result').
    { apply (SortBy.sorted_perm_unique obs_trade_id);
        [|exact (Permutation_NoDup (Permutation_map _ Hp) Hn)|exact Hs|exact Hs'].
      now rewrite <- Hp. }
    subst result'. reflexivity.
Qed.

Definition sample_obs : list obs_row :=
  [(mkRow 1 1 3 0, [], 2%Z, true); (mkRow 1 1 1 0, [], 0%Z, false);
   (mkRow 1 1 2 0, [], 1%Z, true)].

Definition sample_obs_sorted : list obs_row :=
  [(mkRow 1 1 1 0, [], 0%Z, false); (mkRow 1 1 2 0, [], 1%Z, true);
   (mkRow 1 1 3 0, [], 2%Z, true)].

Lemma compute_quantile_obs_values_witness :
  sorts_by obs_trade_id sample_obs sample_obs_sorted /\
  compute_quantile_obs_sorted sample_obs_sorted 2 =
    Some (combine sample_obs_sorted [NaN; Fin (1 # 2); Fin (2 # 2)]) /\
  exists out, compute_quantile_obs_sorted sample_obs_sorted 2 = Some out /\
    map fst out = sample_obs_sorted.
Proof.
  assert (H : sorts_by obs_trade_id sample_obs sample_obs_sorted).
  { split.
    - exact (Permutation_cons_append _ _).
    - vm_compute. repeat constructor; discriminate. }
  split; [exact H|]. split; [vm_compute; reflexivity|].
  destruct (compute_quantile_obs_values sample_obs sample_obs_sorted 2 H)
    as [out [Ho [Hf _]]]; [lia|].
  exists out. split; [exact Ho|exact Hf].
Defined.

(** When the observed quantile equals the target and the current quantile
    already lies within the bounds, [compute_new_quantile] leaves the current
    quantile unchanged. *)
Theorem compute_new_quantile_no_gap (q_curr q_target q_obs speed
    pct_target_min pct_target_max : Q) :
  q_obs == q_target ->
  pct_target_min <= q_curr -> q_curr <= pct_target_max ->
  compute_new_quantile q_curr q_target q_obs speed
    pct_target_min pct_target_max == q_curr.
Proof.
  intros Ho Hlo Hhi. unfold compute_new_quantile.
  assert (Hv : q_curr + speed * (q_target - q_obs) == q_curr)
    by (rewrite Ho; ring).
  py_cases; lra.
Qed.

Lemma compute_new_quantile_no_gap_witness :
  compute_new_quantile PCT_TARGET PCT_TARGET PCT_TARGET SPEED
    PCT_TARGET_MIN PCT_TARGET_MAX == PCT_TARGET.
Proof.
  apply compute_new_quantile_no_gap;
    [reflexivity | vm_compute; discriminate | vm_compute; discriminate].
Defined.

Lemma clamp_lipschitz (lo hi a b : Q) :
  Qabs (py_min hi (py_max lo a) - py_min hi (py_max lo b)) <= Qabs (a - b).
Proof.
  pose proof (Qle_Qabs (a - b)) as H1.
  pose proof (Qle_Qabs (- (a - b))) as H2. rewrite Qabs_opp in H2.
  apply Qabs_Qle_condition.
  py_cases; split; lra.
Qed.

(** For a non-negative speed, changing the observed quantile by [delta]
    moves the output of [compute_new_quantile] by at most
    [speed * |delta|]. *)
Theorem compute_new_quantile_lipschitz (q_curr q_target q_obs1 q_obs2 speed
    pct_target_min pct_target_max : Q) :
  0 <= speed ->
  Qabs (compute_new_quantile q_curr q_target q_obs1 speed
          pct_target_min pct_target_max -
        compute_new_quantile q_curr q_target q_obs2 speed
          pct_target_min pct_target_max) <=
  speed * Qabs (q_obs1 - q_obs2).
Proof.
  intros Hs. unfold compute_new_quantile.
  eapply Qle_trans; [apply clamp_lipschitz|].
  assert (E : q_curr + speed * (q_target - q_obs1) -
              (q_curr + speed * (q_target - q_obs2)) ==
              speed * (q_obs2 - q_obs1)) by ring.
  rewrite E, Qabs_Qmult, (Qabs_pos speed Hs).
  assert (Qabs (q_obs2 - q_obs1) == Qabs (q_obs1 - q_obs2)).
  { rewrite <- Qabs_opp. apply Qabs_wd. ring. }
  rewrite H. apply Qle_refl.
Qed.

Lemma compute_new_quantile_lipschitz_witness :
  Qabs (compute_new_quantile PCT_TARGET PCT_TARGET 0 SPEED
          PCT_TARGET_MIN PCT_TARGET_MAX -
        compute_new_quantile PCT_TARGET PCT_TARGET (1 # 10) SPEED
          PCT_TARGET_MIN PCT_TARGET_MAX) <=
  SPEED * Qabs (0 - (1 # 10)).
Proof. apply compute_new_quantile_lipschitz. vm_compute. discriminate. Defined.

Module Rank.

Lemma count_if_app {A} (f : A -> bool) (l1 l2 : list A) :
  count_if f (l1 ++ l2) = (count_if f l1 + count_if f l2)%Z.
Proof. unfold count_if. rewrite filter_app, length_app. lia. Qed.

Lemma count_if_cons {A} (f : A -> bool) (x : A) (l : list A) :
  count_if f (x :: l) = ((if f x then 1 else 0) + count_if f l)%Z.
Proof.
  unfold count_if. cbn [filter].
  destruct (f x); cbn [length]; [rewrite Nat2Z.inj_succ|]; lia.
Qed.

Lemma count_if_mono {A} (f g : A -> bool) (l : list A) :
  (forall x, f x = true -> g x = true) ->
  (count_if f l <= count_if g l)%Z.
Proof.
  intros H. induction l as [|x l IH]; [unfold count_if; simpl; lia|].
  rewrite !(count_if_cons _ x).
  destruct (f x) eqn:E; [rewrite (H x E)|destruct (g x)]; lia.
Qed.

Lemma count_if_or {A} (f g : A -> bool) (l : list A) :
  (forall x, f x && g x = false) ->
  count_if (fun x => f x || g x) l = (count_if f l + count_if g l)%Z.
Proof.
  intros H. induction l as [|x l IH]; [unfold count_if; simpl; lia|].
  rewrite !count_if_cons, IH. cbv beta. specialize (H x).
  destruct (f x), (g x); cbn [andb orb] in *; try discriminate; lia.
Qed.

Lemma same_group_trans (r r' x : row) :
  same_group r r' = true -> same_group r' x = true -> same_group r x = true.
Proof.
  unfold same_group. rewrite !andb_true_iff, !Z.eqb_eq. lia.
Qed.

End Rank.

(** Within a group, a trade with a strictly larger block number gets a
    strictly smaller [rank(method="first", ascending=False)], so the filter
    [rank < BACKTEST + LOOKBACK * 2] of main keeps, along with any trade,
    every more recent trade of its group. *)
Theorem rank_first_desc_decreasing (frame : list row) (i j : nat)
    (r r' : row) :
  nth_error frame i = Some r -> nth_error frame j = Some r' ->
  same_group r r' = true -> (block_number r < block_number r')%Z ->
  (rank_first_desc frame j r' < rank_first_desc frame i r)%Z.
Proof.
  intros Hi Hj Hg Hb.
  destruct (nth_error_split frame j Hj) as [l1 [l2 [Ef Hl1]]].
  unfold rank_first_desc.
  assert (Hfirst : firstn j frame = l1).
  { rewrite Ef, <- Hl1. rewrite <- (Nat.add_0_r (length l1)).
    rewrite firstn_app_2. simpl. apply app_nil_r. }
  rewrite Hfirst.
  set (A := fun x => same_group r x && Z.ltb (block_number r) (block_number x)).
  set (A' := fun x => same_group r' x &&
                      Z.ltb (block_number r') (block_number x)).
  set (B' := fun x => same_group r' x &&
                      Z.eqb (block_number r') (block_number x)).
  assert (HA'r : A' r' = false)
    by (unfold A'; rewrite Z.ltb_irrefl, andb_false_r; reflexivity).
  assert (HAr : A r' = true)
    by (unfold A; rewrite Hg; simpl; apply Z.ltb_lt; exact Hb).
  assert (Hdisj : forall x, A' x && B' x = false).
  { intros x. unfold A', B'.
    destruct (Z.ltb_spec (block_number r') (block_number x));
      destruct (Z.eqb_spec (block_number r') (block_number x));
      destruct (same_group r' x); simpl; try reflexivity; lia. }
  assert (Hsub : forall x, A' x || B' x = true -> A x = true).
  { intros x Hx. unfold A, A', B' in *. apply andb_true_iff.
    apply orb_true_iff in Hx.
    destruct Hx as [Hx|Hx]; apply andb_true_iff in Hx; destruct Hx as [Hgx Hbx];
      split; try (apply (Rank.same_group_trans r r'); assumption);
      [apply Z.ltb_lt in Hbx | apply Z.eqb_eq in Hbx]; apply Z.ltb_lt; lia. }
  assert (Hsub2 : forall x, A' x = true -> A x = true)
    by (intros x Hx; apply Hsub; now rewrite Hx).
  pose proof (Rank.count_if_or A' B' l1 Hdisj) as Hor.
  pose proof (Rank.count_if_mono _ _ l1 Hsub) as M1.
  pose proof (Rank.count_if_mono _ _ l2 Hsub2) as M2.
  assert (HT : (0 <= count_if (fun r'' => same_group r r'' &&
                   Z.eqb (block_number r) (block_number r'')) (firstn i frame))%Z)
    by (unfold count_if; lia).
  fold A. fold A' B'. rewrite Ef.
  rewrite !Rank.count_if_app, !Rank.count_if_cons, HA'r, HAr.
  rewrite Ef in HT. lia.
Qed.

Lemma rank_first_desc_decreasing_witness :
  (rank_first_desc (frame_of 3) 2 (mkRow 1 1 3 0) <
   rank_first_desc (frame_of 3) 0 (mkRow 1 1 1 0))%Z.
Proof.
  apply rank_first_desc_decreasing;
    [reflexivity | reflexivity | reflexivity | simpl; lia].
Defined.
